(** * Practice-Drills: the drill converter and its generated page

    A shallow embedding of [drill_converter.py]: the Python extraction
    ([parse_csv], [get_all_tags], [main]) and the JavaScript filtering
    logic the script emits into the page ([toggleFilter],
    [clearAllFilters], [renderDrills]).

    Strings are [string]s whose characters stand for the code points
    0..255; on that range [isspace] and [toLowerCase] below are the
    Python and JavaScript functions.  Beyond it [toLowerCase] is not a
    map of single characters; [Utf16] models the search test on code
    units with the Greek sigmas.  A CSV file is the list of rows that
    [csv.reader] yields, the header row first; the errors of opening the
    file, of decoding it and of the csv reader are not modelled. *)

From Stdlib Require Import Ascii.
From stdpp Require Import gmap strings list sorting.

(** ** Python primitives *)

Module Py.

(** Exceptions the modelled code can raise. *)
Inductive exn : Type :=
| StopIteration
| IndexError.

Inductive result (A : Type) : Type :=
| Ok (a : A)
| Raise (e : exn).
Arguments Ok {A} a.
Arguments Raise {A} e.

Definition bind {A B} (k : A → result B) (m : result A) : result B :=
  match m with
  | Ok a => k a
  | Raise e => Raise e
  end.

(** [str.isspace] on one character (code points below 256). *)
Definition isspace (c : ascii) : bool :=
  let n := nat_of_ascii c in
  ((9 <=? n)%nat && (n <=? 13)%nat)
  || ((28 <=? n)%nat && (n <=? 32)%nat)
  || (n =? 133)%nat
  || (n =? 160)%nat.

(** Truth value of a [str]: non-empty. *)
Definition truthy (s : string) : bool :=
  match s with
  | "" => false
  | String _ _ => true
  end.

Fixpoint lstrip (s : string) : string :=
  match s with
  | "" => ""
  | String c s' => if isspace c then lstrip s' else s
  end.

Fixpoint rstrip (s : string) : string :=
  match s with
  | "" => ""
  | String c s' =>
      let r := rstrip s' in
      if isspace c && negb (truthy r) then "" else String c r
  end.

(** [s.strip()]: leading whitespace is skipped first, then trailing. *)
Definition strip (s : string) : string := rstrip (lstrip s).

(** [s.split(sep)] for a one-character separator: always at least one
    piece, empty pieces kept. *)
Fixpoint split (sep : ascii) (s : string) : list string :=
  match s with
  | "" => [""]
  | String c s' =>
      if Ascii.eqb c sep then "" :: split sep s'
      else match split sep s' with
           | p :: ps => String c p :: ps
           | [] => [String c ""]
           end
  end.

(** [row[i]]. *)
Definition getitem (row : list string) (i : nat) : result string :=
  match row !! i with
  | Some x => Ok x
  | None => Raise IndexError
  end.

(** [sorted(list(s))] for a set of strings: the elements in some order,
    then sorted by the code-point order of [str]. *)
Definition sorted (l : list string) : list string :=
  merge_sort String.le l.

Definition set_add (t : string) (s : gset string) : gset string :=
  {[ t ]} ∪ s.

(** [s.update(l)]. *)
Definition set_update (l : list string) (s : gset string) : gset string :=
  foldl (λ acc t, set_add t acc) s l.

End Py.

#[export] Instance result_bind : MBind Py.result := @Py.bind.
#[export] Instance result_ret : MRet Py.result := @Py.Ok.

(** ** The converter *)

Module Converter.
Import Py.

Record drill : Type := Drill {
  name : string;
  link : string;
  tags : list string;
  theme : string;
  sub_category : string
}.

(** [[t.strip() for t in text.split(',') if t.strip()]], guarded by
    [if text:]. *)
Definition pieces (text : string) : list string :=
  if truthy text
  then strip <$> List.filter (λ t, truthy (strip t)) (split ","%char text)
  else [].

(** The body of the [for row in reader] loop: [None] when the row is
    skipped, the new drill otherwise. *)
Definition parse_row (row : list string) : result (option drill) :=
  ok ← (if (5 <=? length row)%nat
        then r0 ← getitem row 0; Ok (truthy (strip r0))
        else Ok false);
  if ok : bool then
    r0 ← getitem row 0;
    let drill_name := strip r0 in
    theme ← (if (2 <? length row)%nat
             then r2 ← getitem row 2; Ok (strip r2) else Ok "");
    sub_category ← (if (3 <? length row)%nat
                    then r3 ← getitem row 3; Ok (strip r3) else Ok "");
    link ← (if (4 <? length row)%nat
            then r4 ← getitem row 4; Ok (strip r4) else Ok "");
    let themes := pieces theme in
    let sub_categories := pieces sub_category in
    let tags := set_update sub_categories (set_update themes ∅) in
    Ok (Some {| name := drill_name;
                link := link;
                tags := sorted (elements tags);
                theme := theme;
                sub_category := sub_category |})
  else Ok None.

Fixpoint parse_rows (rows : list (list string)) (drills : list drill)
  : result (list drill) :=
  match rows with
  | [] => Ok drills
  | row :: rest =>
      o ← parse_row row;
      parse_rows rest (match o with
                       | Some d => drills ++ [d]
                       | None => drills
                       end)
  end.

(** [parse_csv] on the rows of the file: [next(reader)] takes the
    header and raises [StopIteration] when there is none. *)
Definition parse_csv (file : list (list string)) : result (list drill) :=
  match file with
  | [] => Raise StopIteration
  | _header :: rows => parse_rows rows []
  end.

Definition get_all_tags (drills : list drill) : list string :=
  let all_tags := foldl (λ acc d, set_update (tags d) acc) ∅ drills in
  sorted (elements all_tags).

(** What [generate_html] embeds in the page; the fixed markup around it
    is left out. *)
Record page : Type := Page {
  page_drills : list drill;
  page_all_tags : list string
}.

Definition generate_html (drills : list drill) (all_tags : list string)
  : page :=
  {| page_drills := drills; page_all_tags := all_tags |}.

(** Lines printed by [main]. *)
Inductive message : Type :=
| MsgNotFound
| MsgReading
| MsgFound (n : nat)
| MsgExtracting
| MsgFoundTags (n : nat)
| MsgGenerating
| MsgWriting
| MsgCreated
| MsgProcessed (n m : nat)
| MsgOpen.

(** How a run of [main] ends. *)
Record run : Type := Run {
  console : list message;
  output : option page;
  uncaught : option exn
}.

(** [main] on the input file: [None] when the file does not exist. *)
Definition main (csv_file : option (list (list string))) : run :=
  match csv_file with
  | None =>
      {| console := [MsgNotFound]; output := None; uncaught := None |}
  | Some file =>
      match parse_csv file with
      | Raise e =>
          {| console := [MsgReading]; output := None; uncaught := Some e |}
      | Ok drills =>
          let all_tags := get_all_tags drills in
          let html_content := generate_html drills all_tags in
          {| console :=
               [MsgReading; MsgFound (length drills); MsgExtracting;
                MsgFoundTags (length all_tags); MsgGenerating; MsgWriting;
                MsgCreated;
                MsgProcessed (length drills) (length all_tags); MsgOpen];
             output := Some html_content;
             uncaught := None |}
      end
  end.

End Converter.

(** ** The generated page: filter state and rendering *)

Module Page.
Import Converter.

(** [String.prototype.toLowerCase] on one character: A-Z and the
    upper-case letters of 192..222 (215, the multiplication sign, is
    not a letter) move up by 32. *)
Definition lower_char (c : ascii) : ascii :=
  let n := nat_of_ascii c in
  if ((65 <=? n)%nat && (n <=? 90)%nat)
     || ((192 <=? n)%nat && (n <=? 222)%nat && negb (n =? 215)%nat)
  then ascii_of_nat (n + 32)
  else c.

(** On code points 0..255 [toLowerCase] maps every character on its
    own. *)
Fixpoint toLowerCase (s : string) : string :=
  match s with
  | "" => ""
  | String c s' => String (lower_char c) (toLowerCase s')
  end.

(** [s.startsWith(t)]. *)
Fixpoint startsWith (s t : string) : bool :=
  match t, s with
  | "", _ => true
  | String _ _, "" => false
  | String b t', String a s' => Ascii.eqb a b && startsWith s' t'
  end.

(** [s.includes(t)]: [t] occurs at some position of [s]. *)
Fixpoint includes (s t : string) : bool :=
  startsWith s t
  || match s with
     | "" => false
     | String _ s' => includes s' t
     end.

(** [!s] for a string. *)
Definition falsy (s : string) : bool :=
  match s with
  | "" => true
  | String _ _ => false
  end.

(** [Array.prototype.includes] on an array of strings. *)
Definition array_includes (l : list string) (x : string) : bool :=
  existsb (String.eqb x) l.

(** A JavaScript [Set] of strings: its elements in insertion order. *)
Definition jsset_has (s : list string) (t : string) : bool :=
  existsb (String.eqb t) s.

Definition jsset_delete (s : list string) (t : string) : list string :=
  List.filter (λ x, negb (String.eqb x t)) s.

Definition jsset_add (s : list string) (t : string) : list string :=
  if jsset_has s t then s else s ++ [t].

Record state : Type := State {
  activeFilters : list string;
  searchTerm : string
}.

Definition init_state : state :=
  {| activeFilters := []; searchTerm := "" |}.

(** The [input] listener of the search box. *)
Definition on_input (value : string) (st : state) : state :=
  {| activeFilters := activeFilters st;
     searchTerm := toLowerCase value |}.

Definition toggleFilter (tag : string) (st : state) : state :=
  {| activeFilters :=
       if jsset_has (activeFilters st) tag
       then jsset_delete (activeFilters st) tag
       else jsset_add (activeFilters st) tag;
     searchTerm := searchTerm st |}.

Definition clearAllFilters (st : state) : state :=
  {| activeFilters := []; searchTerm := "" |}.

Definition matchesSearch (st : state) (d : drill) : bool :=
  falsy (searchTerm st)
  || includes (toLowerCase (name d)) (searchTerm st)
  || existsb (λ tag, includes (toLowerCase tag) (searchTerm st)) (tags d).

Definition matchesTags (st : state) (d : drill) : bool :=
  (length (activeFilters st) =? 0)%nat
  || forallb (λ f, array_includes (tags d) f) (activeFilters st).

Definition filteredDrills (drills : list drill) (st : state) : list drill :=
  List.filter (λ d, matchesSearch st d && matchesTags st d) drills.

(** What [renderDrills] and [updateStats] put on the page: the listing
    ([None] while the "no results" block replaces it), the result count
    and the tags of the filter summary. *)
Record view : Type := View {
  listing : option (list drill);
  resultsCount : nat;
  activeFiltersText : list string
}.

Definition renderDrills (drills : list drill) (st : state) : view :=
  let filtered := filteredDrills drills st in
  {| listing := if (length filtered =? 0)%nat then None else Some filtered;
     resultsCount := length filtered;
     activeFiltersText := activeFilters st |}.

(** The user's actions on the page. *)
Inductive event : Type :=
| SetSearch (value : string)
| ToggleTag (tag : string)
| Clear.

Definition step (e : event) (st : state) : state :=
  match e with
  | SetSearch value => on_input value st
  | ToggleTag tag => toggleFilter tag st
  | Clear => clearAllFilters st
  end.

Definition run_events (es : list event) (st : state) : state :=
  foldl (λ st e, step e st) st es.

End Page.

(** ** The properties the specification states, in its own words *)

Module Spec.
Import Py Converter Page.

(** Field [i] of a row, the empty string when the row is shorter. *)
Definition field (row : list string) (i : nat) : string :=
  default "" (row !! i).

(** A row is accepted when it has at least 5 fields and its first
    field, trimmed, is non-empty. *)
Definition accepted (row : list string) : Prop :=
  5 ≤ length row ∧ strip (field row 0) ≠ "".

#[export] Instance accepted_dec row : Decision (accepted row).
Proof. unfold accepted. apply _. Defined.

(** Split on commas, trim each piece, drop the empty pieces. *)
Definition labels (text : string) : list string :=
  filter (λ t, t ≠ "") (strip <$> split ","%char text).

(** The tags of a record as a function of its two category fields. *)
Definition derive_tags (theme_text sub_category_text : string)
  : list string :=
  sorted (elements (list_to_set (labels theme_text)
                    ∪ list_to_set (labels sub_category_text)
                    : gset string)).

(** The record of an accepted row. *)
Definition record_of (row : list string) : drill :=
  {| name := strip (field row 0);
     link := strip (field row 4);
     tags := derive_tags (field row 2) (field row 3);
     theme := strip (field row 2);
     sub_category := strip (field row 3) |}.

Definition first_char (s : string) : option ascii :=
  match s with
  | "" => None
  | String c _ => Some c
  end.

Fixpoint last_char (s : string) : option ascii :=
  match s with
  | "" => None
  | String c "" => Some c
  | String _ s' => last_char s'
  end.

(** Non-empty, and neither the first nor the last character is
    whitespace. *)
Definition trimmed_nonempty (s : string) : Prop :=
  s ≠ ""
  ∧ (∀ c, first_char s = Some c → isspace c = false)
  ∧ (∀ c, last_char s = Some c → isspace c = false).

(** [t] occurs in [s] up to the case of letters: some substring of [s]
    and [t] have the same lower-case form. *)
Definition contains_ci (s t : string) : Prop :=
  ∃ pre u post,
    s = pre +:+ u +:+ post ∧ toLowerCase u = toLowerCase t.

Definition matches_search (term : string) (d : drill) : Prop :=
  term = ""
  ∨ contains_ci (name d) term
  ∨ ∃ tag, tag ∈ tags d ∧ contains_ci tag term.

Definition matches_tags (active : list string) (d : drill) : Prop :=
  active = [] ∨ ∀ t, t ∈ active → t ∈ tags d.

End Spec.

(** ** Sample inputs *)

Module Examples.
Import Py Converter Page.

Definition header : list string :=
  ["Drill"; "Description"; "Theme"; "Sub-category"; "Link"].

Definition breakout_row : list string :=
  ["Breakout Drill"; "x"; "Skating, Passing"; "Edges"; "http://a"].

Definition warmup_row : list string :=
  ["Warmup"; "x"; "Skating"; ""; ""].

Definition breakout : drill :=
  {| name := "Breakout Drill";
     link := "http://a";
     tags := ["Edges"; "Passing"; "Skating"];
     theme := "Skating, Passing";
     sub_category := "Edges" |}.

Definition warmup : drill :=
  {| name := "Warmup";
     link := "";
     tags := ["Skating"];
     theme := "Skating";
     sub_category := "" |}.

(** The page state after the two tags are clicked, and after one. *)
Definition skating_passing : state :=
  toggleFilter "Passing" (toggleFilter "Skating" init_state).

Definition skating : state := toggleFilter "Skating" init_state.

End Examples.

(** ** The document that [renderDrills] writes *)

Module Dom.
Import Converter Page.

(** The nodes [renderDrills] and [updateStats] touch: whether the grid
    and the "no results" block are displayed, the cards last written
    into the grid, the count of the "Showing n drills" line and the tags
    of the filter summary. *)
Record dom : Type := MkDom {
  grid_visible : bool;
  noResults_visible : bool;
  grid_cards : list drill;
  count_shown : nat;
  summary : list string
}.

(** The document as [generate_html] ships it. *)
Definition template_dom (drills : list drill) : dom :=
  {| grid_visible := true;
     noResults_visible := false;
     grid_cards := [];
     count_shown := length drills;
     summary := [] |}.

(** [renderDrills]: with no match the grid is hidden and keeps the cards
    it had. *)
Definition renderDrills_dom (drills : list drill) (st : state) (d : dom)
  : dom :=
  let filtered := filteredDrills drills st in
  if (length filtered =? 0)%nat
  then {| grid_visible := false;
          noResults_visible := true;
          grid_cards := grid_cards d;
          count_shown := length filtered;
          summary := activeFilters st |}
  else {| grid_visible := true;
          noResults_visible := false;
          grid_cards := filtered;
          count_shown := length filtered;
          summary := activeFilters st |}.

(** [init]. *)
Definition init (drills : list drill) : state * dom :=
  (init_state, renderDrills_dom drills init_state (template_dom drills)).

(** A listener: the state changes, then [renderDrills] runs. *)
Definition handle (drills : list drill) (e : event) (p : state * dom)
  : state * dom :=
  let st' := step e p.1 in
  (st', renderDrills_dom drills st' p.2).

Definition session (drills : list drill) (es : list event) : state * dom :=
  foldl (λ p e, handle drills e p) (init drills) es.


End Dom.

(** ** The display theme of the page *)

Module Theme.
Import Page.

Definition order : list string := ["auto"; "light"; "dark"].

(** [Array.prototype.indexOf]: -1 when the value is absent. *)
Fixpoint indexOf (l : list string) (x : string) : Z :=
  match l with
  | [] => -1
  | y :: l' =>
      if String.eqb y x then 0
      else let i := indexOf l' x in
           if (i <? 0)%Z then -1 else (i + 1)%Z
  end.

(** [a || b] on strings. *)
Definition or_else (a b : string) : string :=
  if falsy a then b else a.

(** The root element: whether it has the class [theme-dark], and its
    [data-theme] attribute. *)
Record root : Type := Root {
  theme_dark : bool;
  dataset_theme : string
}.

(** The root element, the [theme] entry of [localStorage] and the
    colour scheme of the system. *)
Record world : Type := World {
  doc : root;
  storage : option string;
  prefers_dark : bool
}.

Definition apply (mq_matches : bool) (theme : string) : root :=
  {| theme_dark :=
       String.eqb theme "dark" || (String.eqb theme "auto" && mq_matches);
     dataset_theme := theme |}.

(** The start of the script: the stored preference, or [auto]. *)
Definition on_load (w : world) : world :=
  let pref := match storage w with
              | Some s => or_else s "auto"
              | None => "auto"
              end in
  {| doc := apply (prefers_dark w) pref;
     storage := storage w;
     prefers_dark := prefers_dark w |}.

(** The [change] listener of the colour-scheme query. *)
Definition on_scheme_change (dark : bool) (w : world) : world :=
  {| doc := apply dark (or_else (dataset_theme (doc w)) "auto");
     storage := storage w;
     prefers_dark := dark |}.

(** The [click] listener of the theme button; [None] when [order[..]] is
    [undefined], where [next[0]] would throw.  The label of the button is
    not tracked. *)
Definition on_click (w : world) : option world :=
  let i := indexOf order (or_else (dataset_theme (doc w)) "auto") in
  let k := Z.rem (i + 1) (Z.of_nat (length order)) in
  next ← (if (k <? 0)%Z then None else order !! Z.to_nat k);
  Some {| doc := apply (prefers_dark w) next;
          storage := Some next;
          prefers_dark := prefers_dark w |}.

End Theme.

(** ** Further shapes of extracted text *)

Module Shape.
Import Py Spec.

(** Neither the first nor the last character is whitespace; the empty
    string qualifies. *)
Definition trimmed (s : string) : Prop :=
  (∀ c, first_char s = Some c → isspace c = false)
  ∧ (∀ c, last_char s = Some c → isspace c = false).

(** [c in s]. *)
Fixpoint mem_char (c : ascii) (s : string) : bool :=
  match s with
  | "" => false
  | String a s' => Ascii.eqb a c || mem_char c s'
  end.

End Shape.

(** ** The search test beyond code point 255 *)

Module Utf16.

(** A JavaScript string as its UTF-16 code units.  The units modelled
    are 0..255 and the three Greek sigmas; on a string of such units
    [toLowerCase] below is [String.prototype.toLowerCase], on any other
    string it is [None]. *)
Definition capital_sigma : N := 931.
Definition final_sigma : N := 962.
Definition small_sigma : N := 963.

Definition modelled (u : N) : bool :=
  (u <? 256)%N
  || (u =? capital_sigma)%N || (u =? final_sigma)%N || (u =? small_sigma)%N.

(** The Unicode property Cased on the modelled units. *)
Definition cased (u : N) : bool :=
  ((65 <=? u)%N && (u <=? 90)%N)
  || ((97 <=? u)%N && (u <=? 122)%N)
  || (u =? 170)%N || (u =? 181)%N || (u =? 186)%N
  || ((192 <=? u)%N && (u <=? 214)%N)
  || ((216 <=? u)%N && (u <=? 246)%N)
  || ((248 <=? u)%N && (u <=? 255)%N)
  || (u =? capital_sigma)%N || (u =? final_sigma)%N || (u =? small_sigma)%N.

(** The Unicode property Case_Ignorable on the modelled units. *)
Definition case_ignorable (u : N) : bool :=
  existsb (N.eqb u) [39; 46; 58; 94; 96; 168; 173; 175; 180; 183; 184]%N.

(** The lower-case mapping of a unit other than the capital sigma. *)
Definition lower_unit (u : N) : N :=
  if ((65 <=? u)%N && (u <=? 90)%N)
     || ((192 <=? u)%N && (u <=? 222)%N && negb (u =? 215)%N)
  then (u + 32)%N
  else u.

(** Going through [l], a cased unit comes before any unit that is not
    case-ignorable. *)
Fixpoint meets_cased (l : list N) : bool :=
  match l with
  | [] => false
  | u :: l' =>
      if cased u then true
      else if case_ignorable u then meets_cased l' else false
  end.

(** [before] holds the units already passed, the nearest first.  A
    capital sigma becomes the final sigma when a cased letter comes
    before it and none comes after it, case-ignorable units apart. *)
Fixpoint toLowerCase_from (before s : list N) : list N :=
  match s with
  | [] => []
  | u :: rest =>
      (if (u =? capital_sigma)%N
       then if meets_cased before && negb (meets_cased rest)
            then final_sigma else small_sigma
       else lower_unit u)
      :: toLowerCase_from (u :: before) rest
  end.

Definition toLowerCase (s : list N) : option (list N) :=
  if forallb modelled s then Some (toLowerCase_from [] s) else None.

Fixpoint startsWith (s t : list N) : bool :=
  match t, s with
  | [], _ => true
  | _ :: _, [] => false
  | b :: t', a :: s' => (a =? b)%N && startsWith s' t'
  end.

Fixpoint includes (s t : list N) : bool :=
  startsWith s t
  || match s with
     | [] => false
     | _ :: s' => includes s' t
     end.

(** [matchesSearch] of [renderDrills] for a record with this name and
    these tags, [searchTerm] being what the input listener stored. *)
Definition matchesSearch (searchTerm name : list N) (tags : list (list N))
  : option bool :=
  lower_name ← toLowerCase name;
  lower_tags ← mapM toLowerCase tags;
  Some (bool_decide (searchTerm = [])
        || includes lower_name searchTerm
        || existsb (λ tag, includes tag searchTerm) lower_tags).

(** The input listener and then the test. *)
Definition search (value name : list N) (tags : list (list N)) : option bool :=
  searchTerm ← toLowerCase value;
  matchesSearch searchTerm name tags.

(** The units of a string of code points 0..255. *)
Fixpoint units (s : string) : list N :=
  match s with
  | "" => []
  | String c s' => N_of_ascii c :: units s'
  end.

End Utf16.

(** * Properties *)

Import Py Converter Page Spec.

(** ** Strings: [strip] and [split] *)

Section StripFacts.

Lemma truthy_true s : truthy s = true ↔ s ≠ "".
Proof. destruct s; simpl; split; congruence. Qed.

Lemma truthy_false s : truthy s = false ↔ s = "".
Proof. destruct s; simpl; split; congruence. Qed.

Lemma isspace_comma : isspace ","%char = false.
Proof. reflexivity. Qed.

Lemma lstrip_space c s : isspace c = true → lstrip (String c s) = lstrip s.
Proof. intros H. simpl. by rewrite H. Qed.

Lemma lstrip_nonspace c s :
  isspace c = false → lstrip (String c s) = String c s.
Proof. intros H. simpl. by rewrite H. Qed.

Lemma rstrip_cons c s :
  rstrip (String c s)
  = if isspace c && negb (truthy (rstrip s)) then ""
    else String c (rstrip s).
Proof. reflexivity. Qed.

Lemma rstrip_nonspace c s :
  isspace c = false → rstrip (String c s) = String c (rstrip s).
Proof. intros H. rewrite rstrip_cons. by rewrite H. Qed.

(** Trimming the two ends can be done in either order. *)
Lemma lstrip_rstrip s : lstrip (rstrip s) = rstrip (lstrip s).
Proof.
  induction s as [|c s IH]; [done|].
  destruct (isspace c) eqn:Hc.
  - rewrite (lstrip_space c s Hc), <- IH, rstrip_cons, Hc. simpl.
    destruct (rstrip s) eqn:Hr; simpl; [done|]. by rewrite Hc.
  - rewrite (lstrip_nonspace c s Hc), (rstrip_nonspace c s Hc).
    by apply lstrip_nonspace.
Qed.

Lemma strip_alt s : strip s = lstrip (rstrip s).
Proof. unfold strip. by rewrite lstrip_rstrip. Qed.

Lemma first_char_lstrip s c :
  first_char (lstrip s) = Some c → isspace c = false.
Proof.
  induction s as [|a s IH]; simpl; [done|].
  destruct (isspace a) eqn:Ha; [done|].
  simpl. by intros [= <-].
Qed.

Lemma first_char_rstrip s c :
  first_char (rstrip s) = Some c → first_char s = Some c.
Proof.
  destruct s as [|a s]; [done|]. rewrite rstrip_cons.
  by destruct (isspace a && negb (truthy (rstrip s))).
Qed.

Lemma last_char_rstrip s c :
  last_char (rstrip s) = Some c → isspace c = false.
Proof.
  induction s as [|a s IH]; [done|]. rewrite rstrip_cons.
  destruct (rstrip s) as [|b r] eqn:Hr; simpl.
  - rewrite andb_true_r. destruct (isspace a) eqn:Ha; simpl; [done|].
    by intros [= <-].
  - rewrite andb_false_r. exact IH.
Qed.

(** A non-empty result of [strip] begins and ends with a character that
    is not whitespace. *)
Lemma strip_trimmed s : strip s ≠ "" → trimmed_nonempty (strip s).
Proof.
  intros Hne. split; [done|]. split; intros c Hc.
  - apply (first_char_lstrip s). by apply first_char_rstrip.
  - by apply (last_char_rstrip (lstrip s)).
Qed.

Lemma strip_empty : strip "" = "".
Proof. reflexivity. Qed.

End StripFacts.

Section SplitFacts.

Lemma split_inv sep s : ∃ p ps, split sep s = p :: ps.
Proof.
  destruct s as [|c s]; simpl; [by eauto|].
  destruct (Ascii.eqb c sep); [by eauto|].
  destruct (split sep s); by eauto.
Qed.

Lemma split_sep sep s : split sep (String sep s) = "" :: split sep s.
Proof. simpl. by rewrite Ascii.eqb_refl. Qed.

Lemma split_other sep c s p ps :
  c ≠ sep → split sep s = p :: ps →
  split sep (String c s) = String c p :: ps.
Proof.
  intros Hc Hs. simpl. rewrite Hs.
  by destruct (Ascii.eqb_spec c sep).
Qed.

Lemma space_not_comma c : isspace c = true → c ≠ ","%char.
Proof. intros Hc ->. by rewrite isspace_comma in Hc. Qed.

(** Leading whitespace of the text only reaches the first piece. *)
Lemma split_lstrip s :
  lstrip <$> split "," (lstrip s) = lstrip <$> split "," s.
Proof.
  induction s as [|c s IH]; [done|].
  destruct (isspace c) eqn:Hc; [|by rewrite lstrip_nonspace].
  rewrite (lstrip_space c s Hc), IH.
  destruct (split_inv "," s) as (p & ps & Hs).
  rewrite (split_other _ c s p ps (space_not_comma c Hc) Hs), Hs.
  simpl. by rewrite Hc.
Qed.

(** A text of whitespace only is a single piece. *)
Lemma split_blank s : rstrip s = "" → split "," s = [s].
Proof.
  induction s as [|c s IH]; [done|]. rewrite rstrip_cons.
  destruct (isspace c) eqn:Hc; simpl andb; [|done].
  destruct (rstrip s) eqn:Hr; simpl; [|done]. intros _.
  by apply split_other; [apply space_not_comma|apply IH].
Qed.

(** Trailing whitespace of the text only reaches the last piece. *)
Lemma split_rstrip s :
  rstrip <$> split "," (rstrip s) = rstrip <$> split "," s.
Proof.
  induction s as [|c s IH]; [done|].
  destruct (rstrip (String c s)) as [|a r] eqn:Hr.
  { rewrite (split_blank _ Hr).
    change (rstrip <$> [String c s]) with [rstrip (String c s)].
    by rewrite Hr. }
  rewrite rstrip_cons in Hr.
  destruct (isspace c && negb (truthy (rstrip s))); [done|].
  injection Hr as <- <-.
  destruct (decide (c = ","%char)) as [->|Hc].
  - rewrite !split_sep, !fmap_cons. by f_equal.
  - destruct (split_inv "," s) as (p & ps & Hs).
    destruct (split_inv "," (rstrip s)) as (p' & ps' & Hs').
    rewrite (split_other _ c _ _ _ Hc Hs), (split_other _ c _ _ _ Hc Hs').
    rewrite Hs, Hs', !fmap_cons in IH. injection IH as Hp Hps.
    rewrite !fmap_cons, !rstrip_cons, Hp. by f_equal.
Qed.

(** Trimming the whole text first does not change its trimmed pieces. *)
Lemma split_strip s : strip <$> split "," (strip s) = strip <$> split "," s.
Proof.
  assert (Hrl : ∀ l : list string,
             strip <$> l = rstrip <$> (lstrip <$> l)).
  { intros l. by rewrite <- list_fmap_compose. }
  assert (Hlr : ∀ l : list string,
             strip <$> l = lstrip <$> (rstrip <$> l)).
  { intros l. rewrite <- list_fmap_compose. apply list_fmap_ext.
    intros _ x _. apply strip_alt. }
  unfold strip at 2. rewrite Hlr, split_rstrip, <- Hlr.
  by rewrite Hrl, split_lstrip, <- Hrl.
Qed.

Lemma filter_truthy_fmap (l : list string) :
  strip <$> List.filter (λ t, truthy (strip t)) l
  = filter (λ t, t ≠ "") (strip <$> l).
Proof.
  induction l as [|x l IH]; [done|]. simpl.
  rewrite filter_cons. destruct (truthy (strip x)) eqn:Hx.
  - apply truthy_true in Hx. rewrite decide_True by done.
    rewrite fmap_cons. by f_equal.
  - apply truthy_false in Hx. by rewrite decide_False by (by intros ?).
Qed.

(** The comprehension of [parse_csv], run on the trimmed field, yields
    the labels of the field as it stands in the row. *)
Lemma pieces_strip text : pieces (strip text) = labels text.
Proof.
  unfold pieces, labels. rewrite <- split_strip.
  destruct (truthy (strip text)) eqn:Ht.
  - apply filter_truthy_fmap.
  - apply truthy_false in Ht. by rewrite Ht.
Qed.

Lemma labels_trimmed text t : t ∈ labels text → trimmed_nonempty t.
Proof.
  unfold labels. rewrite list_elem_of_filter, list_elem_of_fmap.
  intros [Hne (p & -> & _)]. by apply strip_trimmed.
Qed.

End SplitFacts.

(** ** Sets and sorting *)

Section SortedFacts.

Lemma sorted_Permutation l : sorted l ≡ₚ l.
Proof. apply merge_sort_Permutation. Qed.

Lemma elem_of_sorted l x : x ∈ sorted l ↔ x ∈ l.
Proof. by rewrite sorted_Permutation. Qed.

Lemma sorted_StronglySorted l : StronglySorted String.le (sorted l).
Proof. apply (StronglySorted_merge_sort _). Qed.

Lemma sorted_elements_NoDup (X : gset string) : NoDup (sorted (elements X)).
Proof. rewrite sorted_Permutation. apply NoDup_elements. Qed.

Lemma elem_of_sorted_elements (X : gset string) x :
  x ∈ sorted (elements X) ↔ x ∈ X.
Proof. by rewrite elem_of_sorted, elem_of_elements. Qed.

Lemma set_update_union l (s : gset string) :
  set_update l s = list_to_set l ∪ s.
Proof.
  revert s. induction l as [|x l IH]; intros s; simpl.
  - by rewrite (left_id_L ∅ (∪)).
  - rewrite IH. unfold set_add.
    by rewrite (assoc_L (∪)), (comm_L (∪) (list_to_set l)).
Qed.

Lemma all_tags_fold (drills : list drill) (s : gset string) x :
  x ∈ foldl (λ acc d, set_update (tags d) acc) s drills
  ↔ x ∈ s ∨ ∃ d, d ∈ drills ∧ x ∈ tags d.
Proof.
  revert s. induction drills as [|d drills IH]; intros s; simpl.
  - split; [by left|]. intros [?|(d & Hd & _)]; [done|].
    by apply elem_of_nil in Hd.
  - rewrite IH, set_update_union, elem_of_union, elem_of_list_to_set.
    split.
    + intros [[?|?]|(d' & Hd' & ?)]; [right; exists d|by left|right; exists d'];
        split; try done; [by left|by right].
    + intros [?|(d' & Hd' & ?)]; [by left; right|].
      apply elem_of_cons in Hd' as [->|?]; [by left; left|].
      right. by exists d'.
Qed.

End SortedFacts.

(** ** Extraction *)

Section Extraction.

(** The tags computed in the loop are [derive_tags] of the two fields as
    they stand in the row. *)
Lemma loop_tags f2 f3 :
  sorted (elements (set_update (pieces (strip f3))
                      (set_update (pieces (strip f2)) ∅)))
  = derive_tags f2 f3.
Proof.
  unfold derive_tags. rewrite !set_update_union, !pieces_strip.
  rewrite (right_id_L ∅ (∪)). do 2 f_equal. apply (comm_L (∪)).
Qed.

(** The loop body never raises: a row is either skipped or turned into
    its record. *)
Lemma parse_row_spec row :
  parse_row row
  = Ok (if decide (accepted row) then Some (record_of row) else None).
Proof.
  unfold parse_row, accepted.
  destruct (Nat.leb_spec 5 (length row)) as [Hlen|Hlen]; simpl.
  2: { rewrite decide_False; [done|]. intros [? _]. lia. }
  destruct row as [|r0 [|r1 [|r2 [|r3 [|r4 row]]]]]; simpl in Hlen; try lia.
  simpl. unfold field; simpl.
  destruct (truthy (strip r0)) eqn:H0; simpl.
  - apply truthy_true in H0. rewrite decide_True by (split; [lia|done]).
    unfold record_of, field; simpl. by rewrite loop_tags.
  - apply truthy_false in H0. rewrite decide_False; [done|].
    by intros [_ ?].
Qed.

Lemma parse_rows_spec rows drills :
  parse_rows rows drills
  = Ok (drills ++ (record_of <$> filter accepted rows)).
Proof.
  revert drills. induction rows as [|row rows IH]; intros drills; simpl.
  - by rewrite app_nil_r.
  - rewrite parse_row_spec. simpl. rewrite IH, filter_cons.
    destruct (decide (accepted row)); [|done].
    by rewrite fmap_cons, <- app_assoc.
Qed.

Lemma parse_csv_spec header rows :
  parse_csv (header :: rows) = Ok (record_of <$> filter accepted rows).
Proof. simpl. by rewrite parse_rows_spec. Qed.

End Extraction.

(** ** Strings on the page: [toLowerCase] and [includes] *)

Section PageStrings.

Lemma append_nil_l s : "" +:+ s = s.
Proof. reflexivity. Qed.

Lemma append_cons c s t : String c s +:+ t = String c (s +:+ t).
Proof. reflexivity. Qed.

Lemma append_nil_r s : s +:+ "" = s.
Proof.
  induction s as [|c s IH]; [done|]. by rewrite append_cons, IH.
Qed.

Lemma falsy_true s : falsy s = true ↔ s = "".
Proof. destruct s; simpl; split; congruence. Qed.

Lemma toLowerCase_nil s : toLowerCase s = "" ↔ s = "".
Proof. destruct s; simpl; split; congruence. Qed.

Lemma lower_char_idem c : lower_char (lower_char c) = lower_char c.
Proof. destruct c as [[] [] [] [] [] [] [] []]; reflexivity. Qed.

Lemma toLowerCase_idem s : toLowerCase (toLowerCase s) = toLowerCase s.
Proof.
  induction s as [|c s IH]; simpl; [done|].
  by rewrite lower_char_idem, IH.
Qed.

Lemma toLowerCase_app s t :
  toLowerCase (s +:+ t) = toLowerCase s +:+ toLowerCase t.
Proof.
  induction s as [|c s IH]; [done|].
  rewrite append_cons. simpl. by rewrite IH.
Qed.

Lemma toLowerCase_app_inv s x y :
  toLowerCase s = x +:+ y →
  ∃ a b, s = a +:+ b ∧ toLowerCase a = x ∧ toLowerCase b = y.
Proof.
  revert s. induction x as [|c x IH]; intros s Hs.
  - by exists "", s.
  - rewrite append_cons in Hs. destruct s as [|c' s]; simpl in Hs; [done|].
    injection Hs as Hc Hs. destruct (IH s Hs) as (a & b & -> & Ha & Hb).
    exists (String c' a), b. rewrite append_cons. simpl.
    by rewrite Hc, Ha.
Qed.

Lemma startsWith_spec s t :
  startsWith s t = true ↔ ∃ post, s = t +:+ post.
Proof.
  revert s. induction t as [|b t IH]; intros s.
  - destruct s; simpl; split; eauto.
  - destruct s as [|a s]; simpl.
    + split; [done|]. by intros [post ?].
    + rewrite andb_true_iff, IH. split.
      * intros [Hab [post ->]]. apply Ascii.eqb_eq in Hab as ->. eauto.
      * intros [post Hp]. rewrite append_cons in Hp.
        injection Hp as -> ->. split; [apply Ascii.eqb_refl|eauto].
Qed.

Lemma includes_spec s t :
  includes s t = true ↔ ∃ pre post, s = pre +:+ t +:+ post.
Proof.
  induction s as [|a s IH].
  - cbn [includes]. rewrite orb_false_r, startsWith_spec. split.
    + intros [post ->]. by exists "", post.
    + intros ([|c pre] & post & H); [eauto|done].
  - cbn [includes]. rewrite orb_true_iff, startsWith_spec, IH. split.
    + intros [[post ->]|(pre & post & ->)].
      * by exists "", post.
      * by exists (String a pre), post.
    + intros ([|c pre] & post & H).
      * left. eauto.
      * rewrite append_cons in H. injection H as -> ->. right. eauto.
Qed.

(** The test the page makes, lower-case name against lower-case term, is
    containment up to case. *)
Lemma includes_lower s t :
  includes (toLowerCase s) (toLowerCase t) = true ↔ contains_ci s t.
Proof.
  rewrite includes_spec. unfold contains_ci. split.
  - intros (x & y & H).
    apply toLowerCase_app_inv in H as (pre & r & -> & _ & H).
    apply toLowerCase_app_inv in H as (u & post & -> & Hu & _).
    by exists pre, u, post.
  - intros (pre & u & post & -> & Hu).
    exists (toLowerCase pre), (toLowerCase post).
    by rewrite !toLowerCase_app, Hu.
Qed.

Lemma contains_ci_nil s : contains_ci s "".
Proof. by exists "", "", s. Qed.

Lemma array_includes_spec l x : array_includes l x = true ↔ x ∈ l.
Proof.
  unfold array_includes. rewrite existsb_exists. split.
  - intros (y & Hy & ->%String.eqb_eq). by apply list_elem_of_In.
  - intros Hx. exists x. rewrite String.eqb_refl.
    split; [by apply list_elem_of_In|done].
Qed.

Lemma jsset_has_spec s t : jsset_has s t = true ↔ t ∈ s.
Proof. apply array_includes_spec. Qed.

End PageStrings.

(** ** The two filter axes *)

Section FilterFacts.

Lemma matchesSearch_spec term st d :
  matchesSearch (on_input term st) d = true ↔ matches_search term d.
Proof.
  unfold matchesSearch, matches_search. simpl.
  rewrite !orb_true_iff, falsy_true, toLowerCase_nil, includes_lower.
  rewrite existsb_exists. split.
  - intros [[?|?]|(tag & Htag & Hin)]; [by left|by right; left|].
    right; right. exists tag.
    split; [by apply list_elem_of_In|by apply includes_lower].
  - intros [?|[?|(tag & Htag & Hin)]]; [by left; left|by left; right|].
    right. exists tag.
    split; [by apply list_elem_of_In|by apply includes_lower].
Qed.

Lemma matchesTags_spec st d :
  matchesTags st d = true ↔ matches_tags (activeFilters st) d.
Proof.
  unfold matchesTags, matches_tags.
  rewrite orb_true_iff, Nat.eqb_eq, length_zero_iff_nil, forallb_forall.
  split; (intros [?|H]; [by left|right]).
  - intros t Ht. apply array_includes_spec, H. by apply list_elem_of_In.
  - intros t Ht. apply array_includes_spec, H. by apply list_elem_of_In.
Qed.

Lemma elem_of_filteredDrills drills st d :
  d ∈ filteredDrills drills st
  ↔ d ∈ drills ∧ matchesSearch st d = true ∧ matchesTags st d = true.
Proof.
  unfold filteredDrills.
  by rewrite !list_elem_of_In, filter_In, andb_true_iff.
Qed.

(** Every state the page can reach holds a lower-case search term. *)
Lemma run_events_searchTerm es st :
  toLowerCase (searchTerm st) = searchTerm st →
  toLowerCase (searchTerm (run_events es st)) = searchTerm (run_events es st).
Proof.
  revert st. induction es as [|e es IH]; intros st Hst; [done|].
  apply IH. destruct e; simpl; [apply toLowerCase_idem|done..].
Qed.

(** The tag axis only looks at which tags are in the active set. *)
Lemma matchesTags_ext st st' d :
  (∀ x, jsset_has (activeFilters st') x = jsset_has (activeFilters st) x) →
  matchesTags st' d = matchesTags st d.
Proof.
  intros H. apply eq_true_iff_eq. rewrite !matchesTags_spec.
  assert (Hin : ∀ x, x ∈ activeFilters st' ↔ x ∈ activeFilters st).
  { intros x. by rewrite <- !jsset_has_spec, H. }
  unfold matches_tags. split; intros [Hnil|Hall].
  - left. destruct (activeFilters st) as [|x l]; [done|].
    assert (x ∈ activeFilters st') as Hx by (apply Hin; left).
    rewrite Hnil in Hx. by apply elem_of_nil in Hx.
  - right. intros t Ht. by apply Hall, Hin.
  - left. destruct (activeFilters st') as [|x l]; [done|].
    assert (x ∈ activeFilters st) as Hx by (apply Hin; left).
    rewrite Hnil in Hx. by apply elem_of_nil in Hx.
  - right. intros t Ht. by apply Hall, Hin.
Qed.

Lemma jsset_has_delete s t x :
  jsset_has (jsset_delete s t) x
  = if String.eqb x t then false else jsset_has s x.
Proof.
  unfold jsset_has, jsset_delete.
  induction s as [|y s IH]; simpl; [by destruct (String.eqb x t)|].
  destruct (String.eqb_spec y t) as [->|Hy]; simpl.
  - rewrite IH. by destruct (String.eqb x t).
  - rewrite IH. destruct (String.eqb x t) eqn:Hx; [|done].
    apply String.eqb_eq in Hx. rewrite orb_false_r, Hx, String.eqb_sym.
    by apply String.eqb_neq.
Qed.

Lemma jsset_has_add s t x :
  jsset_has (jsset_add s t) x
  = if String.eqb x t then true else jsset_has s x.
Proof.
  unfold jsset_add. destruct (jsset_has s t) eqn:Ht.
  - destruct (String.eqb x t) eqn:Hx; [|done].
    apply String.eqb_eq in Hx. by rewrite Hx.
  - unfold jsset_has. rewrite existsb_app. simpl. rewrite orb_false_r.
    destruct (String.eqb x t); [apply orb_true_r|apply orb_false_r].
Qed.

(** One click flips the membership of the clicked tag and of no other. *)
Lemma jsset_has_toggle tag st x :
  jsset_has (activeFilters (toggleFilter tag st)) x
  = if String.eqb x tag then negb (jsset_has (activeFilters st) tag)
    else jsset_has (activeFilters st) x.
Proof.
  unfold toggleFilter. simpl.
  destruct (jsset_has (activeFilters st) tag) eqn:Ht.
  - by rewrite jsset_has_delete.
  - by rewrite jsset_has_add.
Qed.

(** The active set never holds a tag twice. *)
Lemma toggleFilter_NoDup tag st :
  NoDup (activeFilters st) → NoDup (activeFilters (toggleFilter tag st)).
Proof.
  intros Hnd. unfold toggleFilter. simpl.
  destruct (jsset_has (activeFilters st) tag) eqn:Ht.
  - unfold jsset_delete. apply NoDup_ListNoDup, List.NoDup_filter.
    by apply NoDup_ListNoDup.
  - unfold jsset_add. rewrite Ht. apply NoDup_app. split; [done|].
    split; [|apply NoDup_singleton].
    intros x Hx ->%list_elem_of_singleton.
    apply jsset_has_spec in Hx. congruence.
Qed.


(** After two clicks on a tag the active set has the same elements; a
    tag that was active is moved to the end of the insertion order. *)
Lemma toggle_twice_Permutation tag st :
  NoDup (activeFilters st) →
  activeFilters (toggleFilter tag (toggleFilter tag st)) ≡ₚ activeFilters st.
Proof.
  intros Hnd. apply NoDup_Permutation; [|done|].
  - by do 2 apply toggleFilter_NoDup.
  - intros x. rewrite <- !jsset_has_spec, !jsset_has_toggle.
    rewrite String.eqb_refl, negb_involutive.
    destruct (String.eqb x tag) eqn:Hx; [|done].
    apply String.eqb_eq in Hx. by rewrite Hx.
Qed.

Example toggle_twice_order :
  activeFilters
    (toggleFilter "Skating" (toggleFilter "Skating" Examples.skating_passing))
  = ["Passing"; "Skating"].
Proof. reflexivity. Qed.

(** In every state the page can reach, the listed records are those
    that match the stored term and the active tags. *)
Lemma reachable_filteredDrills es drills d :
  let st := run_events es init_state in
  d ∈ filteredDrills drills st
  ↔ d ∈ drills
    ∧ matches_search (searchTerm st) d ∧ matches_tags (activeFilters st) d.
Proof.
  intros st. rewrite elem_of_filteredDrills, <- matchesSearch_spec.
  rewrite <- matchesTags_spec.
  assert (Hst : on_input (searchTerm st) st = st).
  { unfold on_input. unfold st at 2.
    rewrite (run_events_searchTerm es init_state) by done.
    by destruct (run_events es init_state). }
  by rewrite Hst.
Qed.

End FilterFacts.

(** * The claims of the specification *)

Section ExtractionClaims.

Lemma elem_of_derive_tags f2 f3 t :
  t ∈ derive_tags f2 f3 ↔ t ∈ labels f2 ∨ t ∈ labels f3.
Proof.
  unfold derive_tags.
  by rewrite elem_of_sorted_elements, elem_of_union, !elem_of_list_to_set.
Qed.

Lemma elem_of_get_all_tags drills x :
  x ∈ get_all_tags drills ↔ ∃ d, d ∈ drills ∧ x ∈ tags d.
Proof.
  unfold get_all_tags. rewrite elem_of_sorted_elements, all_tags_fold.
  split; [|by right]. intros [H|H]; [|done]. by apply elem_of_empty in H.
Qed.

(** C2: after the header, [parse_csv] yields one record for each row
    that has at least 5 fields and a non-empty trimmed first field, none
    for any other row, in the order of the rows; the loop body never
    raises. *)
Theorem parse_csv_one_record_per_accepted_row header rows :
  parse_csv (header :: rows) = Ok (record_of <$> filter accepted rows)
  ∧ (∀ row, parse_row row
            = Ok (if decide (accepted row) then Some (record_of row)
                  else None))
  ∧ (∀ rows1 rows2 drills,
       parse_rows (rows1 ++ rows2) drills
       = (parse_rows rows1 drills ≫= parse_rows rows2)).
Proof.
  split; [apply parse_csv_spec|]. split; [apply parse_row_spec|].
  intros rows1 rows2 drills. rewrite !parse_rows_spec. simpl.
  by rewrite parse_rows_spec, filter_app, fmap_app, app_assoc.
Qed.

(** C3: the tags of the record of an accepted row are the labels of
    field 2 and field 3 (split on commas, each piece trimmed, empty
    pieces dropped), united and sorted in ascending code-point order,
    without duplicates. *)
Theorem tags_of_accepted_row row d :
  parse_row row = Ok (Some d) →
  tags d = derive_tags (field row 2) (field row 3)
  ∧ (∀ t, t ∈ tags d ↔ t ∈ labels (field row 2) ∨ t ∈ labels (field row 3))
  ∧ NoDup (tags d)
  ∧ StronglySorted String.le (tags d).
Proof.
  rewrite parse_row_spec. destruct (decide (accepted row)); [|done].
  intros [= <-]. simpl. split; [done|]. split; [|split].
  - intros t. apply elem_of_derive_tags.
  - apply sorted_elements_NoDup.
  - apply sorted_StronglySorted.
Qed.

Lemma tags_of_accepted_row_witness :
  tags Examples.breakout = derive_tags "Skating, Passing" "Edges"
  ∧ (∀ t, t ∈ tags Examples.breakout
          ↔ t ∈ labels "Skating, Passing" ∨ t ∈ labels "Edges")
  ∧ NoDup (tags Examples.breakout)
  ∧ StronglySorted String.le (tags Examples.breakout).
Proof.
  apply (tags_of_accepted_row Examples.breakout_row Examples.breakout).
  vm_compute. reflexivity.
Defined.

(** C4: the tag vocabulary holds exactly the strings that occur in the
    tags of some record, without duplicates, in ascending code-point
    order. *)
Theorem get_all_tags_sorted_union drills :
  (∀ x, x ∈ get_all_tags drills ↔ ∃ d, d ∈ drills ∧ x ∈ tags d)
  ∧ NoDup (get_all_tags drills)
  ∧ StronglySorted String.le (get_all_tags drills).
Proof.
  split; [intros x; apply elem_of_get_all_tags|]. split.
  - apply sorted_elements_NoDup.
  - apply sorted_StronglySorted.
Qed.

(** C10: the name of every extracted record is non-empty and has no
    whitespace at either end, and so has every tag of every record and
    every entry of the tag vocabulary. *)
Theorem extraction_normalized file drills :
  parse_csv file = Ok drills →
  (∀ d, d ∈ drills →
        trimmed_nonempty (name d) ∧ ∀ t, t ∈ tags d → trimmed_nonempty t)
  ∧ (∀ t, t ∈ get_all_tags drills → trimmed_nonempty t).
Proof.
  destruct file as [|header rows]; [done|].
  rewrite parse_csv_spec. intros [= <-].
  assert (Hd : ∀ d, d ∈ record_of <$> filter accepted rows →
               trimmed_nonempty (name d)
               ∧ ∀ t, t ∈ tags d → trimmed_nonempty t).
  { intros d (row & -> & Hrow)%list_elem_of_fmap.
    apply list_elem_of_filter in Hrow as [[_ Hname] _]. split.
    - by apply strip_trimmed.
    - intros t [Ht|Ht]%elem_of_derive_tags; by eapply labels_trimmed. }
  split; [done|].
  intros t (d & Hin & Ht)%elem_of_get_all_tags. by apply (Hd d).
Qed.

Lemma extraction_normalized_witness :
  (∀ d, d ∈ [Examples.breakout; Examples.warmup] →
        trimmed_nonempty (name d) ∧ ∀ t, t ∈ tags d → trimmed_nonempty t)
  ∧ (∀ t, t ∈ get_all_tags [Examples.breakout; Examples.warmup] →
          trimmed_nonempty t).
Proof.
  apply (extraction_normalized
           [Examples.header; Examples.breakout_row; Examples.warmup_row]).
  vm_compute. reflexivity.
Defined.

End ExtractionClaims.

(** ** Runs of [main] *)

Section MainClaims.

(** A missing input file is reported and nothing is written. *)
Lemma main_missing_file :
  main None
  = {| console := [MsgNotFound]; output := None; uncaught := None |}.
Proof. reflexivity. Qed.

(** A file with a header row is always converted, whatever its other
    rows are. *)
Lemma main_file_with_header header rows :
  ∃ drills,
    parse_csv (header :: rows) = Ok drills
    ∧ output (main (Some (header :: rows)))
      = Some (generate_html drills (get_all_tags drills))
    ∧ uncaught (main (Some (header :: rows))) = None.
Proof.
  exists (record_of <$> filter accepted rows).
  split; [apply parse_csv_spec|].
  unfold main. by rewrite parse_csv_spec.
Qed.

(** C5: on an input file that exists but has no row at all, [main]
    stops at [next(reader)] with an uncaught [StopIteration] and writes
    no output. *)
Theorem main_empty_file :
  main (Some [])
  = {| console := [MsgReading];
       output := None;
       uncaught := Some StopIteration |}.
Proof. reflexivity. Qed.

End MainClaims.

(** ** Filtering on the page *)

Section FilterClaims.

(** On names, tags and terms of code points 0..255: once [term] is typed
    in the search box, with any active tag set, a record is listed iff
    it matches both axes: the search axis when the term is empty or
    occurs, up to case, in the name or in some tag; the tag axis when no
    tag is active or every active tag is among the tags of the record. *)
Theorem shown_iff_matches_both_axes drills term st d :
  let st' := on_input term st in
  (matchesSearch st' d = true ↔ matches_search term d)
  ∧ (matchesTags st' d = true ↔ matches_tags (activeFilters st) d)
  ∧ (d ∈ filteredDrills drills st'
     ↔ d ∈ drills
       ∧ matches_search term d ∧ matches_tags (activeFilters st) d).
Proof.
  intros st'. split; [apply matchesSearch_spec|].
  split; [apply (matchesTags_spec st')|].
  rewrite elem_of_filteredDrills. unfold st'.
  by rewrite matchesSearch_spec, (matchesTags_spec (on_input term st)).
Qed.

(** C6: the two sample rows give the vocabulary Edges, Passing,
    Skating; the search "warm" lists Warmup only, the active tags
    Skating and Passing list Breakout Drill only, and the active tag
    Skating lists both. *)
Theorem sample_rows_filtering :
  ∃ drills,
    parse_csv [Examples.header; Examples.breakout_row; Examples.warmup_row]
    = Ok drills
    ∧ get_all_tags drills = ["Edges"; "Passing"; "Skating"]
    ∧ name <$> filteredDrills drills (on_input "warm" init_state)
      = ["Warmup"]
    ∧ activeFilters Examples.skating_passing = ["Skating"; "Passing"]
    ∧ name <$> filteredDrills drills Examples.skating_passing
      = ["Breakout Drill"]
    ∧ activeFilters Examples.skating = ["Skating"]
    ∧ name <$> filteredDrills drills Examples.skating
      = ["Breakout Drill"; "Warmup"].
Proof.
  exists [Examples.breakout; Examples.warmup].
  repeat split; vm_compute; reflexivity.
Qed.

(** C7: the tag filter after the search filter, and the search filter
    after the tag filter, both give the list that the page computes in
    one pass. *)
Theorem filter_axes_commute drills st :
  List.filter (matchesSearch st) (List.filter (matchesTags st) drills)
  = List.filter (matchesTags st) (List.filter (matchesSearch st) drills)
  ∧ List.filter (matchesTags st) (List.filter (matchesSearch st) drills)
    = filteredDrills drills st.
Proof.
  unfold filteredDrills.
  induction drills as [|d drills [IH1 IH2]]; [done|]. simpl.
  destruct (matchesSearch st d) eqn:Hs, (matchesTags st d) eqn:Ht; simpl;
    rewrite ?Hs, ?Ht; simpl; by rewrite ?IH1, ?IH2.
Qed.

(** C8: with an empty search term and no active tag every record
    matches, and the filtered list is the whole list. *)
Theorem empty_filter_is_identity drills st :
  filteredDrills drills init_state = drills
  ∧ filteredDrills drills (clearAllFilters st) = drills
  ∧ filteredDrills drills (on_input "" (clearAllFilters st)) = drills
  ∧ (∀ d, matchesSearch init_state d = true
          ∧ matchesTags init_state d = true).
Proof.
  assert (H : filteredDrills drills init_state = drills).
  { unfold filteredDrills. by apply forallb_filter_id, forallb_forall. }
  by repeat split.
Qed.

(** C9: a click on a tag flips the membership of that tag in the active
    set and of no other tag; a second click on the same tag gives every
    tag its former membership, leaves the search term alone, and the
    page lists the same records as before the two clicks. *)
Theorem toggle_twice_restores tag st :
  (∀ x, jsset_has (activeFilters (toggleFilter tag st)) x
        = if String.eqb x tag then negb (jsset_has (activeFilters st) tag)
          else jsset_has (activeFilters st) x)
  ∧ (∀ x, jsset_has (activeFilters (toggleFilter tag (toggleFilter tag st))) x
          = jsset_has (activeFilters st) x)
  ∧ searchTerm (toggleFilter tag (toggleFilter tag st)) = searchTerm st
  ∧ (∀ drills, filteredDrills drills (toggleFilter tag (toggleFilter tag st))
               = filteredDrills drills st).
Proof.
  assert (H2 : ∀ x,
    jsset_has (activeFilters (toggleFilter tag (toggleFilter tag st))) x
    = jsset_has (activeFilters st) x).
  { intros x. rewrite !jsset_has_toggle, String.eqb_refl, negb_involutive.
    destruct (String.eqb x tag) eqn:Hx; [|done].
    apply String.eqb_eq in Hx. by rewrite Hx. }
  split; [intros x; apply jsset_has_toggle|]. split; [done|].
  split; [done|]. intros drills. unfold filteredDrills.
  apply filter_ext_in. intros d _. f_equal. by apply matchesTags_ext.
Qed.

End FilterClaims.

(** * Further properties of the converter *)

Section ExtractionMore.
Import Shape.

Lemma lstrip_idem s : lstrip (lstrip s) = lstrip s.
Proof.
  induction s as [|c s IH]; [done|]. simpl.
  destruct (isspace c) eqn:Hc; [done|]. simpl. by rewrite Hc.
Qed.

Lemma rstrip_idem s : rstrip (rstrip s) = rstrip s.
Proof.
  induction s as [|c s IH]; [done|]. rewrite rstrip_cons.
  destruct (isspace c && negb (truthy (rstrip s))) eqn:Hc; [done|].
  by rewrite rstrip_cons, IH, Hc.
Qed.

Lemma strip_idem s : strip (strip s) = strip s.
Proof.
  unfold strip. by rewrite <- lstrip_rstrip, rstrip_idem, lstrip_rstrip,
    lstrip_idem.
Qed.

Lemma strip_is_trimmed s : trimmed (strip s).
Proof.
  split; intros c Hc.
  - apply (first_char_lstrip s). by apply first_char_rstrip.
  - by apply (last_char_rstrip (lstrip s)).
Qed.

Lemma labels_strip text : labels (strip text) = labels text.
Proof. unfold labels. by rewrite split_strip. Qed.

Lemma elem_of_parse_csv file drills d :
  parse_csv file = Ok drills → d ∈ drills →
  ∃ row, accepted row ∧ d = record_of row.
Proof.
  destruct file as [|header rows]; [done|].
  rewrite parse_csv_spec. intros [= <-].
  intros (row & -> & Hrow)%list_elem_of_fmap.
  apply list_elem_of_filter in Hrow as [Hacc _]. by exists row.
Qed.

(** Whatever the rows of the file are, [parse_csv] does not raise
    [IndexError]: the length test comes before every index into a row. *)
Theorem parse_csv_never_IndexError file : parse_csv file ≠ Raise IndexError.
Proof.
  destruct file as [|header rows]; [done|]. by rewrite parse_csv_spec.
Qed.

(** [parse_csv] returns at most one record for each row after the
    header. *)
Theorem parse_csv_length header rows drills :
  parse_csv (header :: rows) = Ok drills → length drills ≤ length rows.
Proof.
  rewrite parse_csv_spec. intros [= <-].
  rewrite length_fmap. apply length_filter.
Qed.

Lemma parse_csv_length_witness :
  length [Examples.breakout; Examples.warmup]
  ≤ length [Examples.breakout_row; Examples.warmup_row].
Proof.
  apply (parse_csv_length Examples.header).
  vm_compute. reflexivity.
Defined.

(** The link, the theme text and the sub-category text of an extracted
    record have no whitespace at either end. *)
Theorem record_fields_trimmed file drills d :
  parse_csv file = Ok drills → d ∈ drills →
  trimmed (link d) ∧ trimmed (theme d) ∧ trimmed (sub_category d).
Proof.
  intros Hp Hd. destruct (elem_of_parse_csv _ _ _ Hp Hd) as (row & _ & ->).
  simpl. repeat split; apply strip_is_trimmed.
Qed.

Lemma record_fields_trimmed_witness :
  trimmed (link Examples.breakout)
  ∧ trimmed (theme Examples.breakout)
  ∧ trimmed (sub_category Examples.breakout).
Proof.
  apply (record_fields_trimmed
           [Examples.header; Examples.breakout_row; Examples.warmup_row]
           [Examples.breakout; Examples.warmup]).
  - vm_compute. reflexivity.
  - left.
Defined.

(** The tags of an extracted record can be derived again from the theme
    and sub-category texts the record stores. *)
Theorem tags_rederivable file drills d :
  parse_csv file = Ok drills → d ∈ drills →
  tags d = derive_tags (theme d) (sub_category d).
Proof.
  intros Hp Hd. destruct (elem_of_parse_csv _ _ _ Hp Hd) as (row & _ & ->).
  simpl. unfold derive_tags. by rewrite !labels_strip.
Qed.

Lemma tags_rederivable_witness :
  tags Examples.breakout
  = derive_tags (theme Examples.breakout) (sub_category Examples.breakout).
Proof.
  apply (tags_rederivable
           [Examples.header; Examples.breakout_row; Examples.warmup_row]
           [Examples.breakout; Examples.warmup]).
  - vm_compute. reflexivity.
  - left.
Defined.

End ExtractionMore.

Section TagsMore.
Import Shape.

Lemma mem_char_lstrip c s : mem_char c (lstrip s) = true → mem_char c s = true.
Proof.
  induction s as [|a s IH]; [done|]. simpl.
  destruct (isspace a); [|done]. intros H. rewrite (IH H). apply orb_true_r.
Qed.

Lemma mem_char_rstrip c s : mem_char c (rstrip s) = true → mem_char c s = true.
Proof.
  induction s as [|a s IH]; [done|]. rewrite rstrip_cons.
  destruct (isspace a && negb (truthy (rstrip s))); [done|]. simpl.
  intros [->|H]%orb_true_iff; [done|]. rewrite (IH H). apply orb_true_r.
Qed.

Lemma mem_char_strip c s : mem_char c s = false → mem_char c (strip s) = false.
Proof.
  intros Hs. destruct (mem_char c (strip s)) eqn:H; [|done].
  apply mem_char_rstrip, mem_char_lstrip in H. congruence.
Qed.

(** No piece of [split] holds the separator. *)
Lemma split_no_sep sep s p : p ∈ split sep s → mem_char sep p = false.
Proof.
  revert p. induction s as [|c s IH]; intros p.
  - simpl. by intros ->%list_elem_of_singleton.
  - destruct (Ascii.eqb_spec c sep) as [->|Hc].
    + rewrite split_sep. intros [->|Hp]%elem_of_cons; [done|by apply IH].
    + destruct (split_inv sep s) as (q & qs & Hs).
      rewrite (split_other sep c s q qs Hc Hs).
      intros [->|Hp]%elem_of_cons.
      * simpl. rewrite (proj2 (Ascii.eqb_neq c sep) Hc). simpl.
        apply IH. rewrite Hs. left.
      * apply IH. rewrite Hs. by right.
Qed.

Lemma labels_no_comma text t : t ∈ labels text → mem_char "," t = false.
Proof.
  unfold labels. rewrite list_elem_of_filter, list_elem_of_fmap.
  intros [_ (p & -> & Hp)]. by apply mem_char_strip, (split_no_sep _ text).
Qed.

(** No tag of an extracted record, and so no entry of the vocabulary,
    holds a comma. *)
Theorem tags_have_no_comma file drills :
  parse_csv file = Ok drills →
  (∀ d t, d ∈ drills → t ∈ tags d → mem_char "," t = false)
  ∧ (∀ t, t ∈ get_all_tags drills → mem_char "," t = false).
Proof.
  intros Hp.
  assert (H : ∀ d t, d ∈ drills → t ∈ tags d → mem_char "," t = false).
  { intros d t Hd. destruct (elem_of_parse_csv _ _ _ Hp Hd) as (row & _ & ->).
    simpl. intros [Ht|Ht]%elem_of_derive_tags; by eapply labels_no_comma. }
  split; [done|].
  intros t (d & Hd & Ht)%elem_of_get_all_tags. by apply (H d).
Qed.

Lemma tags_have_no_comma_witness :
  (∀ d t, d ∈ [Examples.breakout; Examples.warmup] → t ∈ tags d →
          mem_char "," t = false)
  ∧ (∀ t, t ∈ get_all_tags [Examples.breakout; Examples.warmup] →
          mem_char "," t = false).
Proof.
  apply (tags_have_no_comma
           [Examples.header; Examples.breakout_row; Examples.warmup_row]).
  vm_compute. reflexivity.
Defined.

Lemma derive_tags_comm a b : derive_tags a b = derive_tags b a.
Proof. unfold derive_tags. do 2 f_equal. apply (comm_L (∪)). Qed.

(** Exchanging the theme field and the sub-category field of a row
    leaves the tags of its record as they are. *)
Theorem tags_symmetric_in_fields r0 r1 a b rest d :
  parse_row (r0 :: r1 :: a :: b :: rest) = Ok (Some d) →
  ∃ d', parse_row (r0 :: r1 :: b :: a :: rest) = Ok (Some d')
        ∧ tags d' = tags d.
Proof.
  rewrite !parse_row_spec.
  destruct (decide (accepted (r0 :: r1 :: a :: b :: rest))) as [Hacc|];
    [|done].
  intros [= <-]. rewrite decide_True by exact Hacc.
  eexists. split; [done|]. apply derive_tags_comm.
Qed.

Lemma tags_symmetric_in_fields_witness :
  ∃ d', parse_row ["Breakout Drill"; "x"; "Edges"; "Skating, Passing";
                   "http://a"]
        = Ok (Some d')
        ∧ tags d' = tags Examples.breakout.
Proof.
  apply (tags_symmetric_in_fields
           "Breakout Drill" "x" "Skating, Passing" "Edges" ["http://a"]).
  vm_compute. reflexivity.
Defined.

Lemma get_all_tags_ext drills1 drills2 :
  (∀ x, (∃ d, d ∈ drills1 ∧ x ∈ tags d) ↔ (∃ d, d ∈ drills2 ∧ x ∈ tags d)) →
  get_all_tags drills1 = get_all_tags drills2.
Proof.
  intros H. unfold get_all_tags. do 2 f_equal.
  apply set_eq. intros x. rewrite !all_tags_fold.
  split; (intros [Hx|Hx]; [by apply elem_of_empty in Hx|right; by apply H]).
Qed.

(** The vocabulary does not depend on the order of the records. *)
Theorem get_all_tags_Permutation drills1 drills2 :
  drills1 ≡ₚ drills2 → get_all_tags drills1 = get_all_tags drills2.
Proof.
  intros Hp. apply get_all_tags_ext. intros x.
  split; intros (d & Hd & Hx); exists d; split; try done.
  - by rewrite <- Hp.
  - by rewrite Hp.
Qed.

Lemma get_all_tags_Permutation_witness :
  get_all_tags [Examples.warmup; Examples.breakout]
  = get_all_tags [Examples.breakout; Examples.warmup].
Proof.
  apply get_all_tags_Permutation. apply perm_swap.
Defined.

(** The vocabulary of two lists of records put together holds the
    entries of both vocabularies and nothing else. *)
Theorem get_all_tags_app drills1 drills2 x :
  x ∈ get_all_tags (drills1 ++ drills2)
  ↔ x ∈ get_all_tags drills1 ∨ x ∈ get_all_tags drills2.
Proof.
  rewrite !elem_of_get_all_tags. split.
  - intros (d & [Hd|Hd]%elem_of_app & Hx); [left|right]; by exists d.
  - intros [(d & Hd & Hx)|(d & Hd & Hx)]; exists d;
      (split; [apply elem_of_app; by auto|done]).
Qed.

End TagsMore.

Section MainMore.

(** [main] writes the page only for an input file that exists and has a
    first row, and only in a run that ends without an exception. *)
Theorem main_output_needs_first_row csv_file p :
  output (main csv_file) = Some p →
  (∃ header rows, csv_file = Some (header :: rows))
  ∧ uncaught (main csv_file) = None.
Proof.
  destruct csv_file as [[|header rows]|]; simpl; [done| |done].
  rewrite parse_rows_spec. simpl. intros _. split; [by eauto|done].
Qed.

Lemma main_output_needs_first_row_witness :
  (∃ header rows,
     Some [Examples.header; Examples.breakout_row; Examples.warmup_row]
     = Some (header :: rows))
  ∧ uncaught (main (Some [Examples.header; Examples.breakout_row;
                          Examples.warmup_row])) = None.
Proof.
  apply (main_output_needs_first_row
           (Some [Examples.header; Examples.breakout_row; Examples.warmup_row])
           (generate_html [Examples.breakout; Examples.warmup]
              ["Edges"; "Passing"; "Skating"])).
  vm_compute. reflexivity.
Defined.

End MainMore.

(** * Further properties of the page *)

Section FilterMore.


Lemma listfilter_sublist_self {A} (f : A → bool) l :
  List.filter f l `sublist_of` l.
Proof.
  induction l as [|x l IH]; simpl; [done|].
  destruct (f x); [by apply sublist_skip|by apply sublist_cons].
Qed.

Lemma matchesTags_forallb st d :
  matchesTags st d = forallb (array_includes (tags d)) (activeFilters st).
Proof.
  unfold matchesTags. by destruct (activeFilters st).
Qed.

(** The listed records are a sublist of the records of the page: in
    their order, none invented; the count shown is their number. *)
Theorem filteredDrills_sublist drills st :
  filteredDrills drills st `sublist_of` drills
  ∧ resultsCount (renderDrills drills st) = length (filteredDrills drills st)
  ∧ resultsCount (renderDrills drills st) ≤ length drills.
Proof.
  assert (H : filteredDrills drills st `sublist_of` drills)
    by apply listfilter_sublist_self.
  split; [done|]. split; [done|]. simpl. by apply sublist_length.
Qed.

(** [toggleFilter(tag)], run with a tag that is not active, keeps of the
    listed records exactly those that carry the tag. *)
Theorem activate_tag_narrows drills tag st :
  jsset_has (activeFilters st) tag = false →
  filteredDrills drills (toggleFilter tag st)
  = List.filter (λ d, array_includes (tags d) tag) (filteredDrills drills st).
Proof.
  intros Ht. unfold filteredDrills.
  induction drills as [|d drills IH]; [done|]. simpl. rewrite IH.
  assert (Hd : matchesSearch (toggleFilter tag st) d
               && matchesTags (toggleFilter tag st) d
               = matchesSearch st d && matchesTags st d
                 && array_includes (tags d) tag).
  { rewrite !matchesTags_forallb. unfold toggleFilter, jsset_add. simpl.
    rewrite Ht, forallb_app. simpl. rewrite andb_true_r.
    unfold matchesSearch. simpl. by rewrite andb_assoc. }
  rewrite Hd. destruct (matchesSearch st d && matchesTags st d); simpl; [|done].
  by destruct (array_includes (tags d) tag).
Qed.

Lemma activate_tag_narrows_witness :
  filteredDrills [Examples.breakout; Examples.warmup]
    (toggleFilter "Passing" Examples.skating)
  = List.filter (λ d, array_includes (tags d) "Passing")
      (filteredDrills [Examples.breakout; Examples.warmup] Examples.skating).
Proof.
  apply (activate_tag_narrows _ "Passing" Examples.skating). reflexivity.
Defined.





(** With one tag of the vocabulary active and no search term, the
    records that carry the tag are listed, and there is at least one. *)
Theorem vocabulary_tag_lists_records drills tag :
  tag ∈ get_all_tags drills →
  filteredDrills drills (toggleFilter tag init_state) ≠ []
  ∧ ∀ d, d ∈ filteredDrills drills (toggleFilter tag init_state)
         ↔ d ∈ drills ∧ tag ∈ tags d.
Proof.
  intros Htag.
  assert (H : ∀ d, d ∈ filteredDrills drills (toggleFilter tag init_state)
                   ↔ d ∈ drills ∧ tag ∈ tags d).
  { intros d. rewrite elem_of_filteredDrills, matchesTags_forallb. simpl.
    rewrite andb_true_r, array_includes_spec. unfold matchesSearch. simpl.
    split; [by intros (? & _ & ?)|by intros [? ?]]. }
  split; [|done].
  apply elem_of_get_all_tags in Htag as (d & Hd & Ht).
  intros Hnil. assert (Hin : d ∈ filteredDrills drills (toggleFilter tag init_state))
    by by apply H.
  rewrite Hnil in Hin. by apply elem_of_nil in Hin.
Qed.

Lemma vocabulary_tag_lists_records_witness :
  filteredDrills [Examples.breakout; Examples.warmup]
    (toggleFilter "Edges" init_state) ≠ []
  ∧ ∀ d, d ∈ filteredDrills [Examples.breakout; Examples.warmup]
               (toggleFilter "Edges" init_state)
         ↔ d ∈ [Examples.breakout; Examples.warmup] ∧ "Edges" ∈ tags d.
Proof.
  apply (vocabulary_tag_lists_records
           [Examples.breakout; Examples.warmup] "Edges").
  vm_compute. left.
Defined.

End FilterMore.

Section DomFacts.
Import Dom.





(** A hidden grid keeps the cards of the last search that matched. *)
Example hidden_grid_keeps_cards :
  let d := (session [Examples.breakout; Examples.warmup]
              [SetSearch "warm"; SetSearch "zzz"]).2 in
  grid_visible d = false ∧ grid_cards d = [Examples.warmup].
Proof. by vm_compute. Qed.

End DomFacts.

(** * The display theme *)

Section ThemeFacts.
Import Theme.

Lemma or_else_order s : s ∈ order → or_else s "auto" = s.
Proof.
  unfold order. rewrite !elem_of_cons, elem_of_nil.
  by intros [->|[->|[->|[]]]].
Qed.

Lemma on_click_next w :
  ∃ next,
    on_click w
    = Some {| doc := Theme.apply (prefers_dark w) next;
              storage := Some next;
              prefers_dark := prefers_dark w |}
    ∧ next ∈ order
    ∧ (dataset_theme (doc w) ∉ order → dataset_theme (doc w) ≠ "" →
       next = "auto").
Proof.
  unfold on_click, order. set (cur := or_else (dataset_theme (doc w)) "auto").
  assert (Hcur : dataset_theme (doc w) ≠ "" → cur = dataset_theme (doc w)).
  { unfold cur, or_else. by destruct (dataset_theme (doc w)). }
  cbn [indexOf].
  destruct (String.eqb_spec "auto" cur) as [H1|H1].
  { exists "light". split; [done|]. split; [set_solver|].
    intros Hn Hne. exfalso. apply Hn. rewrite <- (Hcur Hne), <- H1. set_solver. }
  destruct (String.eqb_spec "light" cur) as [H2|H2].
  { exists "dark". split; [done|]. split; [set_solver|].
    intros Hn Hne. exfalso. apply Hn. rewrite <- (Hcur Hne), <- H2. set_solver. }
  destruct (String.eqb_spec "dark" cur) as [H3|H3].
  { exists "auto". split; [done|]. split; [set_solver|done]. }
  exists "auto". split; [done|]. split; [set_solver|done].
Qed.

(** A click on the theme button always succeeds: the page then shows one
    of the three themes, the same theme is stored, and the dark class is
    set for [dark] and, under a dark system scheme, for [auto]. *)
Theorem on_click_valid w :
  ∃ w',
    on_click w = Some w'
    ∧ dataset_theme (doc w') ∈ order
    ∧ storage w' = Some (dataset_theme (doc w'))
    ∧ prefers_dark w' = prefers_dark w
    ∧ theme_dark (doc w')
      = (String.eqb (dataset_theme (doc w')) "dark"
         || (String.eqb (dataset_theme (doc w')) "auto" && prefers_dark w)).
Proof.
  destruct (on_click_next w) as (next & -> & Hin & _).
  eexists. by split.
Qed.

End ThemeFacts.

Section ThemeCycle.
Import Theme.

Lemma on_click_theme w :
  dataset_theme (doc w) ∈ order →
  on_click w
  = Some {| doc := Theme.apply (prefers_dark w)
                     (if String.eqb (dataset_theme (doc w)) "auto"
                      then "light"
                      else if String.eqb (dataset_theme (doc w)) "light"
                           then "dark" else "auto");
            storage := Some (if String.eqb (dataset_theme (doc w)) "auto"
                             then "light"
                             else if String.eqb (dataset_theme (doc w)) "light"
                                  then "dark" else "auto");
            prefers_dark := prefers_dark w |}.
Proof.
  unfold on_click, order. rewrite !elem_of_cons, elem_of_nil.
  by intros [->|[->|[->|[]]]].
Qed.

(** From one of the three themes, a click moves on in the order auto,
    light, dark, and three clicks come back to the theme and the dark
    class the page had. *)
Theorem three_clicks_cycle w :
  dataset_theme (doc w) ∈ order →
  theme_dark (doc w)
  = (String.eqb (dataset_theme (doc w)) "dark"
     || (String.eqb (dataset_theme (doc w)) "auto" && prefers_dark w)) →
  ∃ w1 w2 w3,
    on_click w = Some w1 ∧ on_click w1 = Some w2 ∧ on_click w2 = Some w3
    ∧ dataset_theme (doc w1) ≠ dataset_theme (doc w)
    ∧ dataset_theme (doc w2) ≠ dataset_theme (doc w)
    ∧ doc w3 = doc w.
Proof.
  intros Hin Hdark. destruct w as [[dark th] st mq]. simpl in *.
  unfold order in Hin. rewrite !elem_of_cons, elem_of_nil in Hin.
  destruct Hin as [->|[->|[->|[]]]]; subst dark;
    do 3 eexists; repeat split; try done; by destruct mq.
Qed.

Lemma three_clicks_cycle_witness :
  ∃ w1 w2 w3,
    on_click (World (Root false "light") (Some "light") true) = Some w1
    ∧ on_click w1 = Some w2 ∧ on_click w2 = Some w3
    ∧ dataset_theme (doc w1) ≠ "light"
    ∧ dataset_theme (doc w2) ≠ "light"
    ∧ doc w3 = Root false "light".
Proof.
  apply (three_clicks_cycle (World (Root false "light") (Some "light") true)).
  - vm_compute. do 1 right. left.
  - reflexivity.
Defined.

(** A stored value that is not one of the three themes is taken as it
    is on load, without the dark class; the first click then moves the
    page to [auto]. *)
Theorem unknown_stored_theme w s :
  storage w = Some s → s ∉ order → s ≠ "" →
  doc (on_load w) = {| theme_dark := false; dataset_theme := s |}
  ∧ ∃ w', on_click (on_load w) = Some w'
          ∧ dataset_theme (doc w') = "auto"
          ∧ storage w' = Some "auto".
Proof.
  intros Hs Hn Hne.
  assert (Hdoc : doc (on_load w)
                 = {| theme_dark := false; dataset_theme := s |}).
  { unfold on_load. rewrite Hs. simpl.
    assert (or_else s "auto" = s) as -> by by destruct s.
    unfold Theme.apply. f_equal.
    destruct (String.eqb_spec s "dark") as [->|_].
    { exfalso. apply Hn. unfold order. set_solver. }
    destruct (String.eqb_spec s "auto") as [->|_]; [|done].
    exfalso. apply Hn. unfold order. set_solver. }
  split; [done|].
  destruct (on_click_next (on_load w)) as (next & Hc & _ & Hnext).
  rewrite Hdoc in Hnext. simpl in Hnext. rewrite (Hnext Hn Hne) in Hc.
  eexists. by split.
Qed.

Lemma unknown_stored_theme_witness :
  doc (on_load (World (Root false "auto") (Some "blue") true))
  = {| theme_dark := false; dataset_theme := "blue" |}
  ∧ ∃ w', on_click (on_load (World (Root false "auto") (Some "blue") true))
          = Some w'
          ∧ dataset_theme (doc w') = "auto"
          ∧ storage w' = Some "auto".
Proof.
  apply (unknown_stored_theme
           (World (Root false "auto") (Some "blue") true) "blue").
  - reflexivity.
  - vm_compute. intros H. by repeat (inversion H as [|? ? ? H']; clear H;
                                    rename H' into H).
  - discriminate.
Defined.

(** The choice made by a click survives a reload: loading the page with
    what the click stored gives the root element the click left. *)
Theorem reload_restores_choice w w' :
  on_click w = Some w' → doc (on_load w') = doc w'.
Proof.
  destruct (on_click_next w) as (next & -> & Hin & _). intros [= <-].
  unfold on_load. simpl. by rewrite (or_else_order next Hin).
Qed.

Lemma reload_restores_choice_witness :
  doc (on_load (World (Root true "dark") (Some "dark") false))
  = doc (World (Root true "dark") (Some "dark") false).
Proof.
  apply (reload_restores_choice
           (World (Root false "light") (Some "light") false)).
  reflexivity.
Defined.

End ThemeCycle.

(** * The search test on code units *)

Section SearchOnUnits.

Lemma N_of_ascii_eqb a b : (N_of_ascii a =? N_of_ascii b)%N = Ascii.eqb a b.
Proof.
  destruct (Ascii.eqb_spec a b) as [->|Hne]; [apply N.eqb_refl|].
  apply N.eqb_neq. intros H. apply Hne.
  by rewrite <- (ascii_N_embedding a), H, ascii_N_embedding.
Qed.

Lemma lower_unit_ascii c :
  (N_of_ascii c =? Utf16.capital_sigma)%N = false
  ∧ Utf16.modelled (N_of_ascii c) = true
  ∧ Utf16.lower_unit (N_of_ascii c) = N_of_ascii (lower_char c).
Proof. destruct c as [[] [] [] [] [] [] [] []]; by vm_compute. Qed.

Lemma modelled_units s : forallb Utf16.modelled (Utf16.units s) = true.
Proof.
  induction s as [|c s IH]; [done|]. simpl.
  destruct (lower_unit_ascii c) as (_ & -> & _). exact IH.
Qed.

Lemma toLowerCase_from_units before s :
  Utf16.toLowerCase_from before (Utf16.units s)
  = Utf16.units (toLowerCase s).
Proof.
  revert before. induction s as [|c s IH]; intros before; [done|]. simpl.
  destruct (lower_unit_ascii c) as (-> & _ & ->). by rewrite IH.
Qed.

(** On a string of code points 0..255 the two models of [toLowerCase]
    agree. *)
Lemma toLowerCase_units s :
  Utf16.toLowerCase (Utf16.units s) = Some (Utf16.units (toLowerCase s)).
Proof.
  unfold Utf16.toLowerCase. by rewrite modelled_units, toLowerCase_from_units.
Qed.

Lemma startsWith_units s t :
  Utf16.startsWith (Utf16.units s) (Utf16.units t) = startsWith s t.
Proof.
  revert s. induction t as [|b t IH]; intros s; [by destruct s|].
  destruct s as [|a s]; [done|]. simpl. by rewrite N_of_ascii_eqb, IH.
Qed.

Lemma includes_units s t :
  Utf16.includes (Utf16.units s) (Utf16.units t) = includes s t.
Proof.
  induction s as [|a s IH].
  - cbn [Utf16.units Utf16.includes includes].
    by rewrite <- (startsWith_units "" t).
  - cbn [Utf16.units Utf16.includes includes].
    by rewrite <- (startsWith_units (String a s) t), IH.
Qed.

Lemma mapM_toLowerCase_units (l : list string) :
  mapM Utf16.toLowerCase (Utf16.units <$> l)
  = Some ((λ t, Utf16.units (toLowerCase t)) <$> l).
Proof.
  induction l as [|x l IH]; [done|].
  rewrite fmap_cons. cbn [mapM]. rewrite toLowerCase_units, IH. done.
Qed.

Lemma existsb_units t (l : list string) :
  existsb (λ tag, Utf16.includes tag (Utf16.units t))
    ((λ x, Utf16.units (toLowerCase x)) <$> l)
  = existsb (λ tag, includes (toLowerCase tag) t) l.
Proof.
  induction l as [|x l IH]; [done|].
  rewrite fmap_cons. cbn [existsb]. by rewrite includes_units, IH.
Qed.

(** On records and terms of code points 0..255 the test on code units is
    the test of the page model. *)
Lemma search_units value st d :
  Utf16.search (Utf16.units value) (Utf16.units (name d))
    (Utf16.units <$> tags d)
  = Some (matchesSearch (on_input value st) d).
Proof.
  unfold Utf16.search, Utf16.matchesSearch, matchesSearch. simpl.
  rewrite !toLowerCase_units. simpl.
  rewrite mapM_toLowerCase_units. simpl. f_equal.
  rewrite includes_units. f_equal; [f_equal|].
  - by destruct (toLowerCase value).
  - apply existsb_units.
Qed.

(** C1: the name "AΣ" contains the term "Σ", yet the page hides the
    record when "Σ" is typed: the name is lower-cased to "aς", with the
    final sigma, the term to "σ", and the one does not include the
    other. *)
Theorem final_sigma_hides_record :
  Utf16.includes [65; Utf16.capital_sigma]%N [Utf16.capital_sigma] = true
  ∧ Utf16.toLowerCase [65; Utf16.capital_sigma]%N
    = Some [97; Utf16.final_sigma]%N
  ∧ Utf16.toLowerCase [Utf16.capital_sigma] = Some [Utf16.small_sigma]
  ∧ Utf16.search [Utf16.capital_sigma] [65; Utf16.capital_sigma]%N []
    = Some false.
Proof. by vm_compute. Qed.

End SearchOnUnits.
